(** * mercari-build-training (Go): the item catalog handlers

    A shallow embedding of the HTTP handlers of the two variants of
    [package main] (src/go/app/main.go and its sibling with the
    file-backed search), over an explicit file system, and the proofs of
    the catalog properties stated about them, and the database-backed
    listing of main2.go over the rows its query delivers. *)

From Stdlib Require Import ZArith Lia DecimalString DecimalZ Sorted.
From Stdlib Require Import Ascii.
From Stdlib Require String.
From stdpp Require Import base option list strings gmap.

Local Open Scope Z_scope.
#[local] Arguments String.append !_ _ / : simpl nomatch.

(** ** Bytes and text

    A Go [string] is a sequence of bytes: Rocq's [string], whose
    characters are the 256 byte values. *)

Definition byte_of (c : Ascii.ascii) : Z := Z.of_N (Ascii.N_of_ascii c).
Definition char_of (b : Z) : Ascii.ascii := Ascii.ascii_of_N (Z.to_N b).

Fixpoint bytes_of (s : string) : list Z :=
  match s with
  | EmptyString => []
  | String c rest => byte_of c :: bytes_of rest
  end.

Fixpoint text_of (bs : list Z) : string :=
  match bs with
  | [] => EmptyString
  | b :: rest => String (char_of b) (text_of rest)
  end.

(** The double quote and the line feed, which a literal cannot hold. *)
Definition DQ : Ascii.ascii := Ascii.ascii_of_nat 34.
Definition LF : Ascii.ascii := Ascii.ascii_of_nat 10.

(** ** crypto/sha256 (FIPS 180-4) on 32-bit words held in [Z] *)

Module SHA256.

Definition wrap32 (x : Z) : Z := x mod 2 ^ 32.
Definition add32 (x y : Z) : Z := wrap32 (x + y).
Definition rotr (n x : Z) : Z :=
  Z.lor (Z.shiftr x n) (wrap32 (Z.shiftl x (32 - n))).
Definition not32 (x : Z) : Z := Z.lxor x (2 ^ 32 - 1).

Definition Ch (x y z : Z) : Z := Z.lxor (Z.land x y) (Z.land (not32 x) z).
Definition Maj (x y z : Z) : Z :=
  Z.lxor (Z.lxor (Z.land x y) (Z.land x z)) (Z.land y z).
Definition Sig0 (x : Z) : Z := Z.lxor (Z.lxor (rotr 2 x) (rotr 13 x)) (rotr 22 x).
Definition Sig1 (x : Z) : Z := Z.lxor (Z.lxor (rotr 6 x) (rotr 11 x)) (rotr 25 x).
Definition sig0 (x : Z) : Z := Z.lxor (Z.lxor (rotr 7 x) (rotr 18 x)) (Z.shiftr x 3).
Definition sig1 (x : Z) : Z := Z.lxor (Z.lxor (rotr 17 x) (rotr 19 x)) (Z.shiftr x 10).

(** The round constants are the fractional parts of the square and cube
    roots of the first primes; they are computed once, here. *)
Definition is_prime (n : Z) : bool :=
  forallb (fun d => negb (n mod d =? 0)) (map Z.of_nat (seq 2 (Z.to_nat n - 2))).
Definition primes64 : list Z :=
  Eval vm_compute in filter is_prime (map Z.of_nat (seq 2 310)).

Fixpoint cbrt_bits (bits : nat) (n r : Z) : Z :=
  match bits with
  | O => r
  | S b =>
      let r' := r + 2 ^ Z.of_nat b in
      cbrt_bits b n (if r' * r' * r' <=? n then r' else r)
  end.
Definition icbrt (n : Z) : Z := cbrt_bits 40 n 0.

Definition H0 : list Z :=
  Eval vm_compute in map (fun p => wrap32 (Z.sqrt (p * 2 ^ 64))) (take 8 primes64).
Definition K : list Z :=
  Eval vm_compute in map (fun p => wrap32 (icbrt (p * 2 ^ 96))) primes64.

(** Padding: the byte 0x80, zeros up to 56 modulo 64, the bit length on
    eight bytes, most significant first. *)
Definition be_bytes (n : nat) (x : Z) : list Z :=
  map (fun i => Z.shiftr x (8 * Z.of_nat i) mod 256) (rev (seq 0 n)).
Definition pad (msg : list Z) : list Z :=
  let len := Z.of_nat (length msg) in
  msg ++ 128 :: repeat 0 (Z.to_nat ((55 - len) mod 64)) ++ be_bytes 8 (8 * len).

Definition word_of (bs : list Z) : Z :=
  fold_left (fun acc b => acc * 256 + b) bs 0.

Fixpoint words_of (n : nat) (bs : list Z) : list Z :=
  match n with
  | O => []
  | S n' => word_of (take 4 bs) :: words_of n' (drop 4 bs)
  end.

(** The message schedule, grown from the 16 words of the block. *)
Fixpoint schedule (n : nat) (w : list Z) : list Z :=
  match n with
  | O => w
  | S n' =>
      let t := length w in
      let at_ (i : nat) := nth (t - i) w 0 in
      schedule n' (w ++ [add32 (add32 (sig1 (at_ 2%nat)) (at_ 7%nat))
                               (add32 (sig0 (at_ 15%nat)) (at_ 16%nat))])
  end.

Definition round (st : list Z) (kw : Z * Z) : list Z :=
  match st with
  | [a; b; c; d; e; f; g; h] =>
      let t1 := add32 (add32 (add32 h (Sig1 e)) (add32 (Ch e f g) kw.1)) kw.2 in
      let t2 := add32 (Sig0 a) (Maj a b c) in
      [add32 t1 t2; a; b; c; add32 d t1; e; f; g]
  | _ => st
  end.

Definition compress (h : list Z) (block : list Z) : list Z :=
  let w := schedule 48 (words_of 16 block) in
  zip_with add32 h (fold_left round (zip K w) h).

Fixpoint blocks (n : nat) (h : list Z) (bs : list Z) : list Z :=
  match n with
  | O => h
  | S n' => blocks n' (compress h (take 64 bs)) (drop 64 bs)
  end.

(** [sha256.Sum256]: the 32 bytes of the digest. *)
Definition Sum (msg : list Z) : list Z :=
  let p := pad msg in
  flat_map (be_bytes 4) (blocks (length p / 64) H0 p).

End SHA256.

(** [fmt.Sprintf("%x", bs)]: two lower-case hexadecimal digits per byte. *)
Definition hex_digit (d : Z) : Ascii.ascii :=
  if d <? 10 then char_of (48 + d) else char_of (87 + d).

Fixpoint Sprintf_x (bs : list Z) : string :=
  match bs with
  | [] => EmptyString
  | b :: rest => String (hex_digit (b / 16)) (String (hex_digit (b mod 16)) (Sprintf_x rest))
  end.

(** [strconv.FormatInt(i, 10)] and its inverse [strconv.ParseInt(s, 10, 64)]. *)
Definition FormatInt (i : Z) : string := NilEmpty.string_of_int (Z.to_int i).

(** [strings.HasPrefix] and [strings.Contains] (byte-wise, case-sensitive). *)
Fixpoint HasPrefix (s prefix : string) {struct prefix} : bool :=
  match prefix, s with
  | EmptyString, _ => true
  | String p prefix', String c s' => Ascii.eqb c p && HasPrefix s' prefix'
  | String _ _, EmptyString => false
  end.

Fixpoint Contains (s substr : string) : bool :=
  HasPrefix s substr ||
  match s with
  | EmptyString => false
  | String _ s' => Contains s' substr
  end.

(** [filepath.Ext]: the loop runs from the last byte down to the first
    path separator and returns the suffix that starts at the first dot it
    meets, or the empty string. [seen] is the part already scanned. *)
Fixpoint Ext_scan (rpath : list Ascii.ascii) (seen : string) : string :=
  match rpath with
  | [] => EmptyString
  | c :: more =>
      if Ascii.eqb c "/"%char then EmptyString
      else if Ascii.eqb c "."%char then String c seen
      else Ext_scan more (String c seen)
  end.
Definition Ext (path : string) : string :=
  Ext_scan (rev (String.list_ascii_of_string path)) EmptyString.

(** [filepath.Join(dir, name)] on a directory name and a file name that
    needs no cleaning (no separator, not a dot name). *)
Definition Join (dir name : string) : string := dir +:+ "/" +:+ name.

(** ** The data model (type Item, type Items) *)

Record Item := mkItem {
  ID : string;
  Name : string;
  Category : string;
  ImageName : string
}.

(** A Go slice: [Nil] is the zero value, distinct from an empty slice. *)
Inductive slice (A : Type) : Type :=
| Nil
| Elems (l : list A).
Arguments Nil {A}.
Arguments Elems {A} l.

Definition elems {A} (s : slice A) : list A :=
  match s with
  | Nil => []
  | Elems l => l
  end.

(** [append(s, x)] always yields an allocated slice. *)
Definition append {A} (s : slice A) (x : A) : slice A := Elems (elems s ++ [x]).

Record Items := mkItems { Items_Items : slice Item }.

(** [var items Items] *)
Definition zero_Items : Items := mkItems Nil.

(** ** encoding/json, on the documents these handlers write

    [Marshal] writes the compact form, the fields in the order of the
    struct, [image_name] left out when empty, a nil slice as [null].
    Text is taken to be valid UTF-8, which [Marshal] writes unchanged but
    for the escapes below. [Unmarshal] reads that form back; any other
    text is a syntax error and leaves the destination as it was. *)

Inductive error : Type :=
| PathError (Op Path Err : string)
| SyntaxError (msg : string).

(** [err.Error()] *)
Definition Error (e : error) : string :=
  match e with
  | PathError op path err => op +:+ " " +:+ path +:+ ": " +:+ err
  | SyntaxError msg => msg
  end.

(** Writes a JSON fragment with ' for the double quote. *)
Fixpoint jq (s : string) : string :=
  match s with
  | EmptyString => EmptyString
  | String c rest => String (if Ascii.eqb c "'"%char then DQ else c) (jq rest)
  end.

Definition escape_char (c : Ascii.ascii) : string :=
  let b := byte_of c in
  if b =? 34 then String "\"%char (String c EmptyString)
  else if b =? 92 then "\\"
  else if b =? 10 then "\n"
  else if b =? 13 then "\r"
  else if b =? 9 then "\t"
  else if (b <? 32) || (b =? 60) || (b =? 62) || (b =? 38)
       then "\u00" +:+ String (hex_digit (b / 16)) (String (hex_digit (b mod 16)) EmptyString)
  else String c EmptyString.

Fixpoint escape (s : string) (k : string) : string :=
  match s with
  | EmptyString => k
  | String c rest => escape_char c +:+ escape rest k
  end.

(** A string value followed by [k]: the opening quote is the caller's. *)
Definition quoted (s : string) (k : string) : string := escape s (String DQ k).

Definition key_id : string := Eval vm_compute in jq "{'id':'".
Definition key_name : string := Eval vm_compute in jq ",'name':'".
Definition key_category : string := Eval vm_compute in jq ",'category':'".
Definition key_image_name : string := Eval vm_compute in jq ",'image_name':'".
Definition key_items : string := Eval vm_compute in jq "{'items':".
Definition key_message : string := Eval vm_compute in jq "{'message':'".

Definition marshal_Item (it : Item) (k : string) : string :=
  key_id +:+ quoted (ID it) (
  key_name +:+ quoted (Name it) (
  key_category +:+ quoted (Category it) (
  match ImageName it with
  | EmptyString => "}" +:+ k
  | img => key_image_name +:+ quoted img ("}" +:+ k)
  end))).

Fixpoint marshal_more (l : list Item) (k : string) : string :=
  match l with
  | [] => "]" +:+ k
  | it :: rest => "," +:+ marshal_Item it (marshal_more rest k)
  end.

Definition marshal_slice (s : slice Item) (k : string) : string :=
  match s with
  | Nil => "null" +:+ k
  | Elems [] => "[]" +:+ k
  | Elems (it :: rest) => "[" +:+ marshal_Item it (marshal_more rest k)
  end.

Definition marshal_Items (v : Items) (k : string) : string :=
  key_items +:+ marshal_slice (Items_Items v) ("}" +:+ k).

(** [json.Marshal(items)]: it cannot fail on these types. *)
Definition json_Marshal (v : Items) : string * option error :=
  (marshal_Items v EmptyString, None).

Definition hex_value (c : Ascii.ascii) : option Z :=
  let b := byte_of c in
  if (48 <=? b) && (b <=? 57) then Some (b - 48)
  else if (97 <=? b) && (b <=? 102) then Some (b - 87)
  else if (65 <=? b) && (b <=? 70) then Some (b - 55)
  else None.

(** The UTF-8 bytes of a code point of the basic plane (surrogates are
    not read). *)
Definition utf8 (cp : Z) : option string :=
  if cp <? 128 then Some (text_of [cp])
  else if cp <? 2048 then Some (text_of [192 + cp / 64; 128 + cp mod 64])
  else if (55296 <=? cp) && (cp <=? 57343) then None
  else Some (text_of [224 + cp / 4096; 128 + (cp / 64) mod 64; 128 + cp mod 64]).

Definition escape_code (e : Ascii.ascii) : option Ascii.ascii :=
  let b := byte_of e in
  if (b =? 34) || (b =? 92) || (b =? 47) then Some e
  else if b =? 110 then Some (char_of 10)
  else if b =? 114 then Some (char_of 13)
  else if b =? 116 then Some (char_of 9)
  else if b =? 98 then Some (char_of 8)
  else if b =? 102 then Some (char_of 12)
  else None.

(** Reads a string value after its opening quote: the text and what
    follows the closing quote. *)
Fixpoint unquote (s : string) : option (string * string) :=
  match s with
  | EmptyString => None
  | String c rest =>
      if byte_of c =? 34 then Some (EmptyString, rest)
      else if byte_of c =? 92 then
        match rest with
        | EmptyString => None
        | String e rest1 =>
            if byte_of e =? 117 then
              match rest1 with
              | String h1 (String h2 (String h3 (String h4 rest2))) =>
                  match hex_value h1, hex_value h2, hex_value h3, hex_value h4 with
                  | Some d1, Some d2, Some d3, Some d4 =>
                      match utf8 (((d1 * 16 + d2) * 16 + d3) * 16 + d4), unquote rest2 with
                      | Some u, Some (t, r) => Some (u +:+ t, r)
                      | _, _ => None
                      end
                  | _, _, _, _ => None
                  end
              | _ => None
              end
            else
              match escape_code e, unquote rest1 with
              | Some c', Some (t, r) => Some (String c' t, r)
              | _, _ => None
              end
        end
      else if byte_of c <? 32 then None
      else
        match unquote rest with
        | Some (t, r) => Some (String c t, r)
        | None => None
        end
  end.

(** [expect p s]: [s] without its prefix [p]. *)
Fixpoint expect (p s : string) {struct p} : option string :=
  match p, s with
  | EmptyString, _ => Some s
  | String a p', String c s' => if Ascii.eqb c a then expect p' s' else None
  | String _ _, EmptyString => None
  end.

Definition parse_Item (s : string) : option (Item * string) :=
  s ← expect key_id s;
  '(id, s) ← unquote s;
  s ← expect key_name s;
  '(name, s) ← unquote s;
  s ← expect key_category s;
  '(category, s) ← unquote s;
  match expect key_image_name s with
  | Some s =>
      '(img, s) ← unquote s;
      s ← expect "}" s;
      Some (mkItem id name category img, s)
  | None =>
      s ← expect "}" s;
      Some (mkItem id name category EmptyString, s)
  end.

(** The elements after the first: [fuel] bounds their number. *)
Fixpoint parse_more (fuel : nat) (s : string) : option (list Item * string) :=
  match fuel with
  | O => None
  | S fuel' =>
      match s with
      | EmptyString => None
      | String c rest =>
          if Ascii.eqb c "]"%char then Some ([], rest)
          else if Ascii.eqb c ","%char then
            '(it, s1) ← parse_Item rest;
            '(l, s2) ← parse_more fuel' s1;
            Some (it :: l, s2)
          else None
      end
  end.

Definition parse_slice (s : string) : option (slice Item * string) :=
  match expect "null" s with
  | Some s' => Some (Nil, s')
  | None =>
      s ← expect "[" s;
      match expect "]" s with
      | Some s' => Some (Elems [], s')
      | None =>
          '(it, s1) ← parse_Item s;
          '(l, s2) ← parse_more (String.length s) s1;
          Some (Elems (it :: l), s2)
      end
  end.

Definition parse_Items (data : string) : option Items :=
  s ← expect key_items data;
  '(sl, s) ← parse_slice s;
  s ← expect "}" s;
  match s with
  | EmptyString => Some (mkItems sl)
  | String _ _ => None
  end.

(** [json.Unmarshal(data, &v)]: the value of [v] afterwards, and the error. *)
Definition json_Unmarshal (data : string) (v : Items) : Items * option error :=
  match parse_Items data with
  | Some v' => (v', None)
  | None => (v, Some (SyntaxError "invalid character in the catalog document"))
  end.

(** [json.NewEncoder(w).Encode(v)] writes the value and a line feed. *)
Definition Encode_Item (it : Item) : string :=
  marshal_Item it (String LF EmptyString).
Definition Encode_items (matched : slice Item) : string :=
  marshal_Items (mkItems matched) (String LF EmptyString).
Definition Encode_message (m : string) : string :=
  key_message +:+ quoted m ("}" +:+ String LF EmptyString).

(** ** The file system and the environment of one request

    The disk is a map from paths to contents: [items.json] and the files
    of [images/]. What the handler cannot decide (the clock, an I/O call
    that fails) is fixed per request by an [Env]. *)

Abbreviation FS := (gmap string string).

Inductive write_fault : Type :=
| NoFault
| OpenFails               (* the file cannot be opened for writing *)
| ShortWrite (n : nat).   (* the write stops after [n] bytes *)

Record Env := mkEnv {
  UnixNano : Z;                 (* time.Now().UnixNano() *)
  fault_hash : bool;            (* io.Copy(hash, file) fails *)
  fault_create : bool;          (* os.Create of the image fails *)
  fault_copy : option nat;      (* io.Copy(dst, file) stops after n bytes *)
  fault_read : option error;    (* ioutil.ReadFile fails on a file that exists *)
  fault_write : write_fault     (* ioutil.WriteFile of the catalog *)
}.

(** A request served without any I/O failure at clock reading [t]. *)
Definition calm (t : Z) : Env := mkEnv t false false None None NoFault.

(** [ioutil.ReadFile(path)] *)
Definition ReadFile (env : Env) (fs : FS) (path : string) : string * option error :=
  match fault_read env with
  | Some e => (EmptyString, Some e)
  | None =>
      match fs !! path with
      | Some data => (data, None)
      | None => (EmptyString, Some (PathError "open" path "no such file or directory"))
      end
  end.

(** [ioutil.WriteFile(path, data, 0644)]: open with truncation, write, close. *)
Definition WriteFile (env : Env) (fs : FS) (path data : string) : FS * option error :=
  match fault_write env with
  | NoFault => (<[path := data]> fs, None)
  | OpenFails => (fs, Some (PathError "open" path "permission denied"))
  | ShortWrite n =>
      (<[path := String.substring 0 n data]> fs,
       Some (PathError "write" path "no space left on device"))
  end.

(** [os.Create(path)]: the file exists and is empty afterwards. *)
Definition Create (env : Env) (fs : FS) (path : string) : FS * option error :=
  if fault_create env
  then (fs, Some (PathError "open" path "no such file or directory"))
  else (<[path := EmptyString]> fs, None).

(** [io.Copy(dst, file)] into the file created at [path]. *)
Definition Copy (env : Env) (fs : FS) (path content : string) : FS * option error :=
  match fault_copy env with
  | None => (<[path := content]> fs, None)
  | Some n =>
      (<[path := String.substring 0 n content]> fs,
       Some (PathError "write" path "no space left on device"))
  end.

(** ** net/http: requests and responses *)

Record Upload := mkUpload {
  Filename : string;   (* header.Filename *)
  Content : string     (* the bytes of the part *)
}.

Record Request := mkRequest {
  Method : string;
  multipart_error : option error;   (* what r.ParseMultipartForm returns *)
  Form : gmap string string;
  Files : gmap string Upload;
  Vars : gmap string string;        (* mux.Vars(r) *)
  Query : gmap string string        (* r.URL.Query() *)
}.

Definition FormValue (r : Request) (key : string) : string := default EmptyString (Form r !! key).
Definition FormFile (r : Request) (key : string) : option Upload := Files r !! key.
Definition Var (r : Request) (key : string) : string := default EmptyString (Vars r !! key).
Definition Query_Get (r : Request) (key : string) : string := default EmptyString (Query r !! key).

Record Response := mkResponse {
  StatusCode : Z;
  ContentType : option string;   (* [None]: left to net/http *)
  Body : string
}.

Definition StatusOK : Z := 200.
Definition StatusCreated : Z := 201.
Definition StatusBadRequest : Z := 400.
Definition StatusNotFound : Z := 404.
Definition StatusInternalServerError : Z := 500.

(** [http.Error(w, msg, code)] *)
Definition http_Error (msg : string) (code : Z) : Response :=
  mkResponse code (Some "text/plain; charset=utf-8") (msg +:+ String LF EmptyString).

(** [http.NotFound(w, r)] *)
Definition http_NotFound : Response := http_Error "404 page not found" StatusNotFound.

Definition Handler : Type := Env → Request → FS → FS * Response.

Definition NotFoundError (resp : Response) : Prop := StatusCode resp = StatusNotFound.
Definition StorageFailure (resp : Response) : Prop := StatusCode resp = StatusInternalServerError.
Definition Succeeds (resp : Response) : Prop :=
  StatusCode resp = StatusOK ∨ StatusCode resp = StatusCreated.

(** ** The loops shared by both variants *)

(** [for _, item := range items.Items { if item.ID == itemID { ...; return } }] *)
Fixpoint range_ID (itemID : string) (l : list Item) : option Item :=
  match l with
  | [] => None
  | item :: rest => if String.eqb (ID item) itemID then Some item else range_ID itemID rest
  end.

(** [for _, item := range items.Items { if Contains(..) || Contains(..) { matchedItems = append(matchedItems, item) } }] *)
Fixpoint range_match (keyword : string) (l : list Item) (matchedItems : slice Item) : slice Item :=
  match l with
  | [] => matchedItems
  | item :: rest =>
      range_match keyword rest
        (if Contains (Name item) keyword || Contains (Category item) keyword
         then append matchedItems item
         else matchedItems)
  end.

(** The name under which an upload is stored. *)
Definition hashedFilename (file : Upload) : string :=
  Sprintf_x (SHA256.Sum (bytes_of (Content file))) +:+ Ext (Filename file).

(** The local [item] of the POST handler once the image is hashed. *)
Definition newItem (env : Env) (r : Request) (file : Upload) : Item :=
  mkItem (FormatInt (UnixNano env)) (FormValue r "name") (FormValue r "category")
         (hashedFilename file).

(** The body of the POST handler, the same text in both variants. *)
Definition postItems : Handler := fun env r fs =>
  match multipart_error r with
  | Some err => (fs, http_Error (Error err) StatusBadRequest)
  | None =>
  match FormFile r "image" with
  | None => (fs, http_Error "Image is required" StatusBadRequest)
  | Some file =>
  if fault_hash env
  then (fs, http_Error "Failed to hash the image" StatusInternalServerError)
  else
  let item := newItem env r file in
  let '(fs, err) := Create env fs (Join "images" (hashedFilename file)) in
  match err with
  | Some _ => (fs, http_Error "Failed to save the image" StatusInternalServerError)
  | None =>
  let '(fs, err) := Copy env fs (Join "images" (hashedFilename file)) (Content file) in
  match err with
  | Some _ => (fs, http_Error "Failed to save the image" StatusInternalServerError)
  | None =>
  let items := zero_Items in
  let '(data, err) := ReadFile env fs "items.json" in
  let items :=
    match err with
    | None => (json_Unmarshal data items).1   (* the error is dropped *)
    | Some _ => items
    end in
  let items := mkItems (append (Items_Items items) item) in
  let '(updatedData, err) := json_Marshal items in
  match err with
  | Some err => (fs, http_Error (Error err) StatusInternalServerError)
  | None =>
  let '(fs, _) := WriteFile env fs "items.json" updatedData in   (* the error is dropped *)
  (fs, mkResponse StatusCreated None (Encode_message ("item received: " +:+ Name item)))
  end end end end end.

(** The body of the list handler, the same text in both variants. *)
Definition getItems : Handler := fun env r fs =>
  let '(data, err) := ReadFile env fs "items.json" in
  match err with
  | Some err => (fs, http_Error (Error err) StatusInternalServerError)
  | None => (fs, mkResponse StatusOK (Some "application/json") data)
  end.

(** ** The variant with the file-backed search *)

Module FileBacked.

Definition getItemsHandler : Handler := getItems.

Definition postItemsHandler : Handler := postItems.

Definition getItemHandler : Handler := fun env r fs =>
  let itemID := Var r "item_id" in
  let items := zero_Items in
  let '(data, err) := ReadFile env fs "items.json" in
  match err with
  | Some err => (fs, http_Error (Error err) StatusInternalServerError)
  | None =>
  let '(items, err) := json_Unmarshal data items in
  match err with
  | Some err => (fs, http_Error (Error err) StatusInternalServerError)
  | None =>
  match range_ID itemID (elems (Items_Items items)) with
  | Some item =>
      (* Encode cannot fail on an Item: its error branch is never taken *)
      (fs, mkResponse StatusOK (Some "application/json") (Encode_Item item))
  | None => (fs, http_NotFound)
  end end end.

Definition searchItemsHandler : Handler := fun env r fs =>
  let keyword := Query_Get r "keyword" in
  if String.eqb keyword EmptyString
  then (fs, http_Error "Keyword parameter is missing" StatusBadRequest)
  else
  let items := zero_Items in
  let '(data, err) := ReadFile env fs "items.json" in
  match err with
  | Some err => (fs, http_Error (Error err) StatusInternalServerError)
  | None =>
  let '(items, err) := json_Unmarshal data items in
  match err with
  | Some err => (fs, http_Error (Error err) StatusInternalServerError)
  | None =>
  let matchedItems := range_match keyword (elems (Items_Items items)) Nil in
  (fs, mkResponse StatusOK (Some "application/json") (Encode_items matchedItems))
  end end.

End FileBacked.

(** ** The variant of src/go/app/main.go *)

Module App.

Definition getItemHandler : Handler := fun env r fs =>
  let itemID := Var r "item_id" in
  let items := zero_Items in
  let '(data, err) := ReadFile env fs "items.json" in
  match err with
  | Some err => (fs, http_Error (Error err) StatusInternalServerError)
  | None =>
  let '(items, _) := json_Unmarshal data items in   (* the error is dropped *)
  match range_ID itemID (elems (Items_Items items)) with
  | Some item => (fs, mkResponse StatusOK None (Encode_Item item))
  | None => (fs, http_NotFound)
  end end.

Definition itemsHandler : Handler := fun env r fs =>
  if String.eqb (Method r) "POST" then postItems env r fs
  else if String.eqb (Method r) "GET" then getItems env r fs
  else (fs, mkResponse StatusOK None EmptyString).

(** The search of this variant is a stub: [items] stays nil. *)
Definition searchItemsHandler : Handler := fun env r fs =>
  let keyword := Query_Get r "keyword" in
  if String.eqb keyword EmptyString
  then (fs, http_Error "Keyword parameter is missing" StatusBadRequest)
  else
  let items : slice Item := Nil in
  (fs, mkResponse StatusOK (Some "application/json") (Encode_items items)).

End App.

(** ** Notions used to state the properties *)

(** [sub] occurs in [s]. *)
Definition substring_of (sub s : string) : Prop :=
  ∃ pre post, s = pre +:+ sub +:+ post.

(** The item matches the keyword: its name or its category contains it. *)
Definition matches (keyword : string) (it : Item) : Prop :=
  substring_of keyword (Name it) ∨ substring_of keyword (Category it).


(** The catalog the POST handler works on: what it reads from the
    disk, any failure to read or to parse giving the zero value. *)
Definition loaded (env : Env) (fs : FS) : Items :=
  let '(data, err) := ReadFile env fs "items.json" in
  match err with
  | None => (json_Unmarshal data zero_Items).1
  | Some _ => zero_Items
  end.

(** The catalog persisted on the disk, when the document exists and parses. *)
Definition catalog_of (fs : FS) : option (list Item) :=
  data ← fs !! "items.json";
  items ← parse_Items data;
  Some (elems (Items_Items items)).


(** Requests served one after the other by one worker. *)
Fixpoint serve_all (h : Handler) (calls : list (Env * Request)) (fs : FS) : FS * list Response :=
  match calls with
  | [] => (fs, [])
  | (env, r) :: rest =>
      let '(fs1, resp) := h env r fs in
      let '(fs2, resps) := serve_all h rest fs1 in
      (fs2, resp :: resps)
  end.

(** A POST that nothing stops: a well-formed form with an image, and no
    failure while the image is stored and the catalog is read and written. *)
Definition smooth (call : Env * Request) : Prop :=
  multipart_error call.2 = None ∧ is_Some (FormFile call.2 "image") ∧
  fault_hash call.1 = false ∧ fault_create call.1 = false ∧
  fault_copy call.1 = None ∧ fault_read call.1 = None ∧ fault_write call.1 = NoFault.

(** The item a smooth POST appends. *)
Definition created (call : Env * Request) : Item :=
  match FormFile call.2 "image" with
  | Some file => newItem call.1 call.2 file
  | None => mkItem (FormatInt (UnixNano call.1)) (FormValue call.2 "name")
                   (FormValue call.2 "category") EmptyString
  end.

(** Requests of the examples. *)
Definition post_request (name category filename content : string) : Request :=
  mkRequest "POST" None (<["name" := name]> (<["category" := category]> ∅))
            (<["image" := mkUpload filename content]> ∅) ∅ ∅.
Definition item_request (id : string) : Request :=
  mkRequest "GET" None ∅ ∅ (<["item_id" := id]> ∅) ∅.
Definition search_request (keyword : string) : Request :=
  mkRequest "GET" None ∅ ∅ ∅ (<["keyword" := keyword]> ∅).
Definition list_request : Request := mkRequest "GET" None ∅ ∅ ∅ ∅.

(** The catalog a request finds on the disk when its read does not fail. *)
Definition stored (fs : FS) : list Item := elems (Items_Items (loaded (calm 0) fs)).

(** ** A small shop, for the examples *)

Definition shoe : Item := mkItem "1700000000000000000" "Shoe" "Fashion" "s.jpg".
Definition book : Item := mkItem "1700000000000000005" "Book" "Media" "b.png".
Definition shop_doc : string :=
  jq "{'items':[{'id':'1700000000000000000','name':'Shoe','category':'Fashion','image_name':'s.jpg'},{'id':'1700000000000000005','name':'Book','category':'Media','image_name':'b.png'}]}".
Definition shop_items : Items := mkItems (Elems [shoe; book]).
Definition shop : FS := <["items.json" := shop_doc]> ∅.

(** The same document cut in the middle of its second item. *)
Definition torn_doc : string := String.substring 0 120 shop_doc.
Definition torn : FS := <["items.json" := torn_doc]> ∅.

Definition noon : Z := 1700000000000000009.
Definition hat_request : Request := post_request "Hat" "Fashion" "hat.jpg" "IMG".
Definition hat : Item :=
  mkItem "1700000000000000009" "Hat" "Fashion"
         "d083ab0535d61b80b9565e9d0e1b356cd3f26f616fde9d08ad4fc4d2f784c2ba.jpg".

(** ** The database-backed listing of main2.go

    [db.Query] gives an error or the rows the driver delivers before
    [rows.Next] returns false; [rows.Err] is never consulted, so rows lost
    to a failure in the middle of the iteration are not in the list. A
    column holds NULL, a text or an integer. *)

Module Sqlite.

Inductive value : Type :=
| NULL
| TEXT (s : string)
| INTEGER (i : Z).

Record Row := mkRow {
  col_id : value;
  col_name : value;
  col_category : value;
  col_image_name : value
}.

Inductive ScanError : Type :=
| NullColumn (index : Z) (name : string).

(** The text of the error of database/sql. *)
Definition ScanError_Error (e : ScanError) : string :=
  match e with
  | NullColumn index name =>
      "sql: Scan error on column index " +:+ FormatInt index +:+ ", name " +:+
      String DQ (name +:+ String DQ ": converting NULL to string is unsupported")
  end.

(** Assignment of a column to a [*string] destination. *)
Definition scan_string (index : Z) (name : string) (v : value) : ScanError + string :=
  match v with
  | NULL => inl (NullColumn index name)
  | TEXT s => inr s
  | INTEGER i => inr (FormatInt i)
  end.

(** [rows.Scan(&item.ID, &item.Name, &item.Category, &item.ImageName)]:
    the columns are assigned from left to right. *)
Definition Scan (row : Row) : ScanError + Item :=
  match scan_string 0 "id" (col_id row) with
  | inl e => inl e
  | inr id =>
  match scan_string 1 "name" (col_name row) with
  | inl e => inl e
  | inr name =>
  match scan_string 2 "category" (col_category row) with
  | inl e => inl e
  | inr category =>
  match scan_string 3 "image_name" (col_image_name row) with
  | inl e => inl e
  | inr image_name => inr (mkItem id name category image_name)
  end end end end.

(** [for rows.Next() { ...Scan...; items = append(items, item) }] *)
Fixpoint scan_rows (rows : list Row) (items : slice Item) : ScanError + slice Item :=
  match rows with
  | [] => inr items
  | row :: rest =>
      match Scan row with
      | inl e => inl e
      | inr item => scan_rows rest (append items item)
      end
  end.

(** [json.NewEncoder(w).Encode(items)] on a [[]Item]. *)
Definition Encode_slice (items : slice Item) : string :=
  marshal_slice items (String LF EmptyString).

Definition itemsHandler (query : error + list Row) : Response :=
  match query with
  | inl err => http_Error (Error err) StatusInternalServerError
  | inr rows =>
      match scan_rows rows Nil with
      | inl e => http_Error (ScanError_Error e) StatusInternalServerError
      | inr items => mkResponse StatusOK (Some "application/json") (Encode_slice items)
      end
  end.

End Sqlite.

(** ** Further notions used to state properties *)

(** The character occurs in the text. *)
Definition has_char (c : ascii) (s : string) : Prop := substring_of (String c EmptyString) s.

(** A column that [Scan] can assign to a string. *)
Definition assignable (v : Sqlite.value) : Prop := v ≠ Sqlite.NULL.

Definition complete (row : Sqlite.Row) : Prop :=
  assignable (Sqlite.col_id row) ∧ assignable (Sqlite.col_name row) ∧
  assignable (Sqlite.col_category row) ∧ assignable (Sqlite.col_image_name row).

Definition text_of_value (v : Sqlite.value) : string :=
  match v with
  | Sqlite.NULL => EmptyString
  | Sqlite.TEXT s => s
  | Sqlite.INTEGER i => FormatInt i
  end.

Definition item_of_row (row : Sqlite.Row) : Item :=
  mkItem (text_of_value (Sqlite.col_id row)) (text_of_value (Sqlite.col_name row))
         (text_of_value (Sqlite.col_category row)) (text_of_value (Sqlite.col_image_name row)).


(** The columns of a row in the order of the query, and their names. *)
Definition columns (row : Sqlite.Row) : list Sqlite.value :=
  [Sqlite.col_id row; Sqlite.col_name row; Sqlite.col_category row; Sqlite.col_image_name row].

Definition column_names : list string := ["id"; "name"; "category"; "image_name"].

(** * Proofs *)

(** ** encoding/json: what is written is read back *)

Lemma unquote_escape_char (c : ascii) (k : string) :
  unquote (escape_char c +:+ k)
  = match unquote k with Some (t, r) => Some (String c t, r) | None => None end.
Proof.
  destruct c as [[] [] [] [] [] [] [] []]; reflexivity.
Qed.

Lemma unquote_quoted (s k : string) : unquote (quoted s k) = Some (s, k).
Proof.
  unfold quoted. induction s as [|c s IH]; simpl.
  - reflexivity.
  - rewrite unquote_escape_char, IH. reflexivity.
Qed.

Lemma expect_app (p s : string) : expect p (p +:+ s) = Some s.
Proof.
  induction p as [|a p IH]; simpl; [by destruct s|].
  by rewrite Ascii.eqb_refl.
Qed.

Lemma unquote_escape (s k : string) : unquote (escape s (String DQ k)) = Some (s, k).
Proof. apply unquote_quoted. Qed.



Lemma parse_Item_marshal (it : Item) (k : string) :
  parse_Item (marshal_Item it k) = Some (it, k).
Proof.
  destruct it as [id name category img].
  unfold parse_Item, marshal_Item, quoted. cbn [ID Name Category ImageName].
  do 3 (rewrite expect_app; cbn [mbind option_bind];
        rewrite unquote_escape; cbn [mbind option_bind]).
  destruct img as [|c img].
  - reflexivity.
  - rewrite expect_app, unquote_escape. reflexivity.
Qed.

Lemma length_append (a b : string) :
  String.length (a +:+ b) = (String.length a + String.length b)%nat.
Proof. induction a as [|c a IH]; simpl; [done|]. by rewrite IH. Qed.

Lemma length_escape (s k : string) : (String.length k <= String.length (escape s k))%nat.
Proof.
  induction s as [|c s IH]; simpl; [lia|].
  rewrite length_append. lia.
Qed.

Lemma length_marshal_Item (it : Item) (k : string) :
  (String.length k < String.length (marshal_Item it k))%nat.
Proof.
  unfold marshal_Item, quoted.
  set (tail := match ImageName it with EmptyString => _ | String _ _ => _ end).
  assert (Ht : (String.length k < String.length tail)%nat).
  { subst tail. destruct (ImageName it) as [|c img]; [rewrite length_append; simpl; lia|].
    rewrite length_append.
    pose proof (length_escape (String c img) (String DQ ("}" +:+ k))) as H.
    change ("}" +:+ k) with (String "}" k) in *.
    cbn [String.length] in H. lia. }
  clearbody tail.
  revert Ht.
  repeat (rewrite !length_append;
          match goal with
          | |- context [String.length (escape ?s ?r)] =>
              generalize (length_escape s r); cbn [String.length];
              generalize (String.length (escape s r)); intros ?
          end).
  lia.
Qed.

Lemma length_marshal_more (l : list Item) (k : string) :
  (length l < String.length (marshal_more l k))%nat.
Proof.
  induction l as [|it l IH]; cbn [marshal_more]; rewrite length_append; cbn [String.length length]; [lia|].
  pose proof (length_marshal_Item it (marshal_more l k)). lia.
Qed.

Lemma parse_more_marshal (l : list Item) (k : string) (fuel : nat) :
  (length l < fuel)%nat → parse_more fuel (marshal_more l k) = Some (l, k).
Proof.
  revert fuel. induction l as [|it l IH]; intros [|fuel] Hf; simpl in Hf; try lia.
  - reflexivity.
  - cbn [marshal_more]. change ("," +:+ ?x) with (String "," x).
    cbn [parse_more]. simpl Ascii.eqb. cbn iota.
    rewrite parse_Item_marshal. cbn [mbind option_bind].
    rewrite IH by lia. reflexivity.
Qed.

Lemma parse_slice_marshal (s : slice Item) (k : string) :
  parse_slice (marshal_slice s k) = Some (s, k).
Proof.
  destruct s as [|[|it l]].
  - reflexivity.
  - reflexivity.
  - unfold parse_slice, marshal_slice.
    change ("[" +:+ ?x) with (String "[" x).
    assert (Hn : ∀ x, expect "null" (String "[" x) = None) by reflexivity.
    rewrite Hn. 
    assert (Hb : ∀ x, expect "[" (String "[" x) = Some x) by (intros x; simpl; by destruct x).
    rewrite Hb. cbn [mbind option_bind].
    assert (Hc : ∀ x, expect "]" (marshal_Item it x) = None) by reflexivity.
    rewrite Hc, parse_Item_marshal. cbn [mbind option_bind].
    rewrite parse_more_marshal; [reflexivity|].
    pose proof (length_marshal_Item it (marshal_more l k)).
    pose proof (length_marshal_more l k). lia.
Qed.

Lemma parse_Items_marshal (v : Items) :
  parse_Items (marshal_Items v EmptyString) = Some v.
Proof.
  destruct v as [s]. unfold parse_Items, marshal_Items. cbn [Items_Items].
  rewrite expect_app. cbn [mbind option_bind].
  rewrite parse_slice_marshal. reflexivity.
Qed.

Theorem json_roundtrip (v v0 : Items) :
  json_Unmarshal (json_Marshal v).1 v0 = (v, None).
Proof. unfold json_Unmarshal, json_Marshal. cbn [fst]. by rewrite parse_Items_marshal. Qed.

(** ** Strings, loops and ids *)


Lemma app_nil_r' (a : string) : a +:+ "" = a.
Proof. induction a as [|x a IH]; simpl; [done|]. by rewrite IH. Qed.

(** strings.HasPrefix / Contains *)
Lemma HasPrefix_spec (s p : string) : HasPrefix s p = true ↔ ∃ post, s = p +:+ post.
Proof.
  revert s. induction p as [|a p IH]; intros s; simpl.
  - split; [intros _; by exists s|done].
  - destruct s as [|c s]; simpl.
    + split; [done|intros [post H]; discriminate].
    + rewrite andb_true_iff, Ascii.eqb_eq, IH. split.
      * intros [-> [post ->]]. by exists post.
      * intros [post H]. injection H as -> ->. eauto.
Qed.

Lemma Contains_spec (s sub : string) : Contains s sub = true ↔ substring_of sub s.
Proof.
  unfold substring_of. induction s as [|c s IH]; simpl.
  - rewrite orb_false_r, HasPrefix_spec. split.
    + intros [post H]. by exists "", post.
    + intros [[|x pre] [post H]]; simpl in H; [eauto|discriminate].
  - rewrite orb_true_iff, HasPrefix_spec, IH. split.
    + intros [[post H]|[pre [post H]]].
      * by exists "", post.
      * exists (String c pre), post. simpl. by rewrite H.
    + intros [[|x pre] [post H]]; simpl in H.
      * left. eauto.
      * right. injection H as -> ->. eauto.
Qed.

Lemma matches_spec (keyword : string) (it : Item) :
  Contains (Name it) keyword || Contains (Category it) keyword = true ↔ matches keyword it.
Proof. unfold matches. by rewrite orb_true_iff, !Contains_spec. Qed.


Lemma range_match_Nil (keyword : string) (l : list Item) :
  range_match keyword l Nil = Nil ↔
  List.filter (λ it, Contains (Name it) keyword || Contains (Category it) keyword) l = [].
Proof.
  assert (H : ∀ l acc, acc ≠ Nil → range_match keyword l acc ≠ Nil).
  { clear l. induction l as [|it l IH]; intros acc Hacc; simpl; [done|].
    apply IH. by destruct (_ || _). }
  induction l as [|it l IH]; simpl; [done|].
  destruct (Contains (Name it) keyword || Contains (Category it) keyword) eqn:E.
  - split; [|done]. intros Hn. by apply H in Hn.
  - apply IH.
Qed.





Lemma image_path_not_catalog (name : string) : Join "images" name ≠ "items.json".
Proof. unfold Join. simpl. discriminate. Qed.

(** ** The library models on known values *)

Example sha256_abc :
  Sprintf_x (SHA256.Sum (bytes_of "abc"))
  = "ba7816bf8f01cfea414140de5dae2223b00361a396177a9cb410ff61f20015ad".
Proof. by vm_compute. Qed.

Example sha256_two_blocks :
  Sprintf_x (SHA256.Sum (bytes_of "abcdbcdecdefdefgefghfghighijhijkijkljklmklmnlmnomnopnopq"))
  = "248d6a61d20638b8e5c026930c3e6039a33ce45964ff2167f6ecedd419db06c1".
Proof. by vm_compute. Qed.

Example Ext_values :
  Ext "shoe.jpg" = ".jpg" ∧ Ext "x.tar.gz" = ".gz" ∧ Ext "a/b.c/d" = EmptyString ∧
  Ext "noext" = EmptyString.
Proof. by vm_compute. Qed.

Example shop_doc_parses : json_Unmarshal shop_doc zero_Items = (shop_items, None).
Proof. by vm_compute. Qed.

Example shop_doc_written : (json_Marshal shop_items).1 = shop_doc.
Proof. by vm_compute. Qed.

Example torn_doc_rejected : parse_Items torn_doc = None.
Proof. by vm_compute. Qed.

(** ** What the handlers do to the disk *)

Lemma ReadFile_image_insert env (fs : FS) name content :
  ReadFile env (<[Join "images" name := content]> fs) "items.json" = ReadFile env fs "items.json".
Proof.
  unfold ReadFile. by rewrite lookup_insert_ne by apply image_path_not_catalog.
Qed.

Lemma postItems_smooth env r (fs : FS) file :
  multipart_error r = None → FormFile r "image" = Some file →
  fault_hash env = false → fault_create env = false → fault_copy env = None →
  postItems env r fs =
    ((WriteFile env (<[Join "images" (hashedFilename file) := Content file]> fs) "items.json"
        (marshal_Items (mkItems (append (Items_Items (loaded env fs)) (newItem env r file)))
                       EmptyString)).1,
     mkResponse StatusCreated None (Encode_message ("item received: " +:+ FormValue r "name"))).
Proof.
  intros Hm Hf Hh Hc Hy. unfold postItems, Create, Copy, loaded.
  rewrite Hm, Hf, Hh, Hc, Hy. cbn beta iota zeta.
  rewrite insert_insert_eq, ReadFile_image_insert.
  destruct (ReadFile env fs "items.json") as [data [e|]]; cbn beta iota zeta;
    unfold json_Marshal; cbn beta iota zeta;
    by destruct (WriteFile _ _ _ _).
Qed.

Lemma postItems_Created env r (fs : FS) :
  StatusCode (postItems env r fs).2 = StatusCreated →
  ∃ file, multipart_error r = None ∧ FormFile r "image" = Some file ∧
          fault_hash env = false ∧ fault_create env = false ∧ fault_copy env = None.
Proof.
  unfold postItems, Create, Copy.
  destruct (multipart_error r); [discriminate|].
  destruct (FormFile r "image") as [file|]; [|discriminate].
  destruct (fault_hash env); [discriminate|].
  destruct (fault_create env); [discriminate|]. cbn beta iota zeta.
  destruct (fault_copy env); [discriminate|].
  intros _. by exists file.
Qed.

Lemma loaded_ok env (fs : FS) data items :
  fault_read env = None → fs !! "items.json" = Some data →
  json_Unmarshal data zero_Items = (items, None) → loaded env fs = items.
Proof. intros Hr Hd Hu. unfold loaded, ReadFile. by rewrite Hr, Hd, Hu. Qed.



Lemma loaded_insert env (fs : FS) (v : Items) :
  fault_read env = None →
  loaded env (<["items.json" := marshal_Items v EmptyString]> fs) = v.
Proof.
  intros Hr. unfold loaded, ReadFile. rewrite Hr, lookup_insert_eq.
  unfold json_Unmarshal. by rewrite parse_Items_marshal.
Qed.

Lemma loaded_calm env (fs : FS) : fault_read env = None → loaded env fs = loaded (calm 0) fs.
Proof. intros Hr. unfold loaded, ReadFile. by rewrite Hr. Qed.

Lemma postItems_smooth_call (call : Env * Request) (fs : FS) :
  smooth call →
  StatusCode (postItems call.1 call.2 fs).2 = StatusCreated ∧
  stored (postItems call.1 call.2 fs).1 = stored fs ++ [created call].
Proof.
  destruct call as [env r]. intros (Hm & [file Hf] & Hh & Hc & Hy & Hr & Hw). simpl in *.
  rewrite (postItems_smooth env r fs file) by done. split; [done|].
  unfold WriteFile. rewrite Hw. cbn [fst]. unfold stored.
  rewrite loaded_insert by done. unfold created. cbn [fst snd]. rewrite Hf.
  by rewrite (loaded_calm env).
Qed.





(** ** Failures of the store *)

Lemma loaded_unparseable (env : Env) (fs : FS) (data : string) :
  fs !! "items.json" = Some data → parse_Items data = None → loaded env fs = zero_Items.
Proof.
  intros Hd Hp. unfold loaded, ReadFile, json_Unmarshal.
  destruct (fault_read env); [done|]. by rewrite Hd, Hp.
Qed.

(** A POST on a document that does not parse keeps nothing of it. *)
Lemma postItems_forgets_unparseable (call : Env * Request) (fs : FS) (data : string) :
  smooth call → fs !! "items.json" = Some data → parse_Items data = None →
  StatusCode (postItems call.1 call.2 fs).2 = StatusCreated ∧
  stored (postItems call.1 call.2 fs).1 = [created call].
Proof.
  intros Hs Hd Hp. destruct (postItems_smooth_call call fs Hs) as [Hc Hst].
  split; [done|]. rewrite Hst. unfold stored.
  by rewrite (loaded_unparseable _ _ _ Hd Hp).
Qed.

(** The read handlers of the file-backed variant report such a document. *)
Lemma FileBacked_reads_reject_unparseable (env : Env) (r : Request) (fs : FS) (data : string) :
  fault_read env = None → fs !! "items.json" = Some data → parse_Items data = None →
  StorageFailure (FileBacked.getItemHandler env r fs).2 ∧
  (Query_Get r "keyword" ≠ EmptyString →
   StorageFailure (FileBacked.searchItemsHandler env r fs).2).
Proof.
  intros Hr Hd Hp.
  unfold FileBacked.getItemHandler, FileBacked.searchItemsHandler, ReadFile, json_Unmarshal.
  rewrite Hr, Hd, Hp. cbn beta iota zeta. split; [done|].
  intros Hk. apply String.eqb_neq in Hk. by rewrite Hk.
Qed.

(** The item handler of src/go/app/main.go answers as on an empty catalog. *)
Lemma App_getItem_unparseable (env : Env) (r : Request) (fs : FS) (data : string) :
  fault_read env = None → fs !! "items.json" = Some data → parse_Items data = None →
  (App.getItemHandler env r fs).2 = http_NotFound.
Proof.
  intros Hr Hd Hp. unfold App.getItemHandler, ReadFile, json_Unmarshal.
  by rewrite Hr, Hd, Hp.
Qed.

(** The answer of a POST does not depend on how the catalog write ends. *)
Lemma postItems_answer_ignores_write (env : Env) (w : write_fault) (r : Request) (fs : FS) :
  (postItems (mkEnv (UnixNano env) (fault_hash env) (fault_create env) (fault_copy env)
                    (fault_read env) w) r fs).2
  = (postItems env r fs).2.
Proof.
  unfold postItems, Create, Copy, ReadFile, WriteFile, json_Marshal, newItem. cbn [UnixNano fault_hash fault_create fault_copy fault_read fault_write].
  destruct (multipart_error r); [done|].
  destruct (FormFile r "image"); [|done].
  destruct (fault_hash env); [done|].
  destruct (fault_create env); [done|]. cbn beta iota zeta.
  destruct (fault_copy env); [done|]. cbn beta iota zeta.
  destruct (fault_read env); cbn beta iota zeta.
  - by destruct w, (fault_write env).
  - destruct (_ !! "items.json"); cbn beta iota zeta; by destruct w, (fault_write env).
Qed.

(** Without a document every read handler answers 500. *)
Lemma reads_fail_without_document (env : Env) (r : Request) (fs : FS) :
  fs !! "items.json" = None →
  StorageFailure (getItems env r fs).2 ∧
  StorageFailure (FileBacked.getItemHandler env r fs).2 ∧
  StorageFailure (App.getItemHandler env r fs).2 ∧
  (Query_Get r "keyword" ≠ EmptyString →
   StorageFailure (FileBacked.searchItemsHandler env r fs).2).
Proof.
  intros Hd.
  unfold getItems, FileBacked.getItemHandler, App.getItemHandler,
    FileBacked.searchItemsHandler, ReadFile.
  rewrite Hd. destruct (fault_read env); cbn beta iota zeta.
  - split_and!; [done..|]. intros Hk. apply String.eqb_neq in Hk. by rewrite Hk.
  - split_and!; [done..|]. intros Hk. apply String.eqb_neq in Hk. by rewrite Hk.
Qed.

(** Durability: after a POST that nothing stops, the list handler serves
    the catalog with the new item at its end. *)
Lemma created_item_is_listed (call : Env * Request) (env : Env) (r : Request) (fs : FS) :
  smooth call → fault_read env = None →
  (getItems env r (postItems call.1 call.2 fs).1).2
  = mkResponse StatusOK (Some "application/json")
      (marshal_Items (mkItems (Elems (stored fs ++ [created call]))) EmptyString).
Proof.
  destruct call as [env0 r0]. intros (Hm & [file Hf] & Hh & Hc & Hy & Hr0 & Hw) Hr.
  simpl in *. rewrite (postItems_smooth env0 r0 fs file) by done.
  unfold WriteFile, getItems, ReadFile. rewrite Hw, Hr. cbn [fst].
  rewrite lookup_insert_eq. cbn beta iota zeta. unfold created, stored. cbn [fst snd].
  by rewrite Hf, (loaded_calm env0).
Qed.


(** * The claims *)

(** C1 (the code fails the claim): a POST served while the persisted
    document exists but does not parse is answered 201 Created, and the
    document is replaced by a catalog that holds the new item alone: the
    stored items are lost. Both variants run the same text. *)
Theorem C1_corrupt_catalog_overwritten :
  let out := FileBacked.postItemsHandler (calm noon) hat_request torn in
  let out' := App.itemsHandler (calm noon) hat_request torn in
  (json_Unmarshal torn_doc zero_Items).2 ≠ None ∧
  StatusCode out.2 = StatusCreated ∧
  catalog_of out.1 = Some [hat] ∧
  StatusCode out'.2 = StatusCreated ∧
  catalog_of out'.1 = Some [hat].
Proof. split_and!; by vm_compute. Qed.

(** C2 (the code fails the claim): on a persisted document that does not
    parse, the item handler of src/go/app/main.go answers 404 Not Found,
    as on an empty catalog, and not a storage failure. *)
Theorem C2_corrupt_catalog_read_as_empty :
  let resp := (App.getItemHandler (calm noon) (item_request "1700000000000000000") torn).2 in
  (json_Unmarshal torn_doc zero_Items).2 ≠ None ∧
  resp = http_NotFound ∧ NotFoundError resp ∧ ¬ StorageFailure resp.
Proof. split_and!; by vm_compute. Qed.

(** C3 (the code fails the claim): when the write of the catalog fails,
    the POST is still answered 201 Created; and when the write stops
    part-way, the previous document is gone and what is left does not
    parse. *)
Theorem C3_write_failure_reported_as_created :
  let denied := mkEnv noon false false None None OpenFails in
  let full := mkEnv noon false false None None (ShortWrite 100) in
  let out := FileBacked.postItemsHandler denied hat_request shop in
  let out' := FileBacked.postItemsHandler full hat_request shop in
  (WriteFile denied shop "items.json" shop_doc).2 ≠ None ∧
  StatusCode out.2 = StatusCreated ∧
  catalog_of out.1 = Some [shoe; book] ∧
  (WriteFile full shop "items.json" shop_doc).2 ≠ None ∧
  StatusCode out'.2 = StatusCreated ∧
  out'.1 !! "items.json" = Some (String.substring 0 100 shop_doc) ∧
  catalog_of out'.1 = None.
Proof. split_and!; by vm_compute. Qed.













(** C9 (the code fails the claim): while no catalog document exists, the
    list handler of either variant answers 500 with the error of the
    read, not the empty catalog; the POST handler, on the same disk,
    takes the catalog as empty and creates the document. *)
Theorem C9_missing_document_fails_listing :
  let resp := (FileBacked.getItemsHandler (calm noon) list_request ∅).2 in
  let resp' := (App.itemsHandler (calm noon) list_request ∅).2 in
  resp = http_Error "open items.json: no such file or directory" StatusInternalServerError ∧
  resp' = resp ∧ StorageFailure resp ∧
  catalog_of (FileBacked.postItemsHandler (calm noon) hat_request ∅).1 = Some [hat].
Proof. split_and!; by vm_compute. Qed.

(** C10: on a catalog that loads, a search with a non-empty keyword that
    no item matches answers 200 with the items field written as the JSON
    null, the nil slice, and not as an empty array. *)
Theorem C10_no_match_is_null (env : Env) (r : Request) (fs : FS) (data : string) (items : Items) :
  fault_read env = None → fs !! "items.json" = Some data →
  json_Unmarshal data zero_Items = (items, None) →
  Query_Get r "keyword" ≠ EmptyString →
  (∀ it, it ∈ elems (Items_Items items) → ¬ matches (Query_Get r "keyword") it) →
  (FileBacked.searchItemsHandler env r fs).2
  = mkResponse StatusOK (Some "application/json") (jq "{'items':null}" +:+ String LF EmptyString)
  ∧ Body (FileBacked.searchItemsHandler env r fs).2 ≠ jq "{'items':[]}" +:+ String LF EmptyString.
Proof.
  intros Hr Hd Hu Hk Hno.
  assert (Hnil : range_match (Query_Get r "keyword") (elems (Items_Items items)) Nil = Nil).
  { apply range_match_Nil.
    induction (elems (Items_Items items)) as [|it l IH]; simpl; [done|].
    destruct (Contains (Name it) _ || Contains (Category it) _) eqn:Em.
    - apply matches_spec in Em. exfalso. apply (Hno it); [left|done].
    - apply IH. intros x Hx. apply Hno. by right. }
  unfold FileBacked.searchItemsHandler, ReadFile.
  apply String.eqb_neq in Hk. rewrite Hk, Hr, Hd. cbn beta iota zeta.
  rewrite Hu. cbn beta iota zeta. rewrite Hnil. split; [reflexivity|]. 
  cbn. discriminate.
Qed.

Lemma C10_no_match_is_null_witness :
  let r := search_request "xyz" in
  (fault_read (calm noon) = None ∧ shop !! "items.json" = Some shop_doc ∧
   json_Unmarshal shop_doc zero_Items = (shop_items, None) ∧
   Query_Get r "keyword" ≠ EmptyString) ∧
  (FileBacked.searchItemsHandler (calm noon) r shop).2
  = mkResponse StatusOK (Some "application/json") (jq "{'items':null}" +:+ String LF EmptyString)
  ∧ Body (FileBacked.searchItemsHandler (calm noon) r shop).2
    ≠ jq "{'items':[]}" +:+ String LF EmptyString.
Proof.
  split; [split_and!; by vm_compute|].
  apply (C10_no_match_is_null (calm noon) (search_request "xyz") shop shop_doc shop_items);
    [by vm_compute..|].
  intros it Hit Hm. apply matches_spec in Hm. vm_compute in Hit.
  apply elem_of_cons in Hit as [->|Hit]; [by vm_compute in Hm|].
  apply list_elem_of_singleton in Hit as ->. by vm_compute in Hm.
Defined.

(** * Further properties of the handlers *)

(** ** Lemmas *)

Lemma has_char_In (c : ascii) (s : string) :
  has_char c s ↔ In c (String.list_ascii_of_string s).
Proof.
  unfold has_char. rewrite <- Contains_spec.
  induction s as [|a s IH]; simpl.
  - split; [discriminate|tauto].
  - rewrite <- IH. destruct (Ascii.eqb_spec a c) as [->|Hne]; simpl.
    + split; auto.
    + split; [by right|intros [?|?]; done].
Qed.

Lemma list_ascii_app (a b : string) :
  String.list_ascii_of_string (a +:+ b)
  = String.list_ascii_of_string a ++ String.list_ascii_of_string b.
Proof. induction a as [|x a IH]; simpl; [done|]. by rewrite IH. Qed.

Lemma Ext_scan_no_separator (rpath : list ascii) (seen : string) :
  ¬ In "/"%char (String.list_ascii_of_string seen) →
  ¬ In "/"%char (String.list_ascii_of_string (Ext_scan rpath seen)).
Proof.
  revert seen. induction rpath as [|c more IH]; intros seen Hs; simpl; [tauto|].
  destruct (Ascii.eqb_spec c "/") as [->|Hsep]; simpl; [tauto|].
  destruct (Ascii.eqb_spec c ".") as [->|Hdot]; simpl.
  - intros [H|H]; [discriminate|done].
  - apply IH. simpl. intros [H|H]; [by subst|done].
Qed.

Lemma hex_digit_not_separator (d : Z) : 0 <= d < 16 → hex_digit d ≠ "/"%char.
Proof.
  intros Hd.
  assert (H : d = 0 ∨ d = 1 ∨ d = 2 ∨ d = 3 ∨ d = 4 ∨ d = 5 ∨ d = 6 ∨ d = 7 ∨ d = 8 ∨
              d = 9 ∨ d = 10 ∨ d = 11 ∨ d = 12 ∨ d = 13 ∨ d = 14 ∨ d = 15) by lia.
  repeat (destruct H as [->|H]; [by vm_compute|]). subst. by vm_compute.
Qed.

Lemma Sprintf_x_no_separator (bs : list Z) :
  Forall (λ b, 0 <= b < 256) bs →
  ¬ In "/"%char (String.list_ascii_of_string (Sprintf_x bs)).
Proof.
  induction 1 as [|b bs Hb _ IH]; simpl; [tauto|].
  intros [H|[H|H]]; [| |done].
  - apply (hex_digit_not_separator (b / 16)); [|done].
    split; [apply Z.div_pos; lia|apply Z.div_lt_upper_bound; lia].
  - apply (hex_digit_not_separator (b mod 16)); [|done]. apply Z.mod_pos_bound. lia.
Qed.

Lemma length_Sprintf_x (bs : list Z) :
  String.length (Sprintf_x bs) = (2 * length bs)%nat.
Proof. induction bs as [|b bs IH]; simpl; [done|]. rewrite IH. lia. Qed.

Lemma be_bytes_range (n : nat) (x : Z) : Forall (λ b, 0 <= b < 256) (SHA256.be_bytes n x).
Proof.
  unfold SHA256.be_bytes. apply Forall_fmap, Forall_forall. intros i _. simpl.
  apply Z.mod_pos_bound. lia.
Qed.

Lemma length_be_bytes (n : nat) (x : Z) : length (SHA256.be_bytes n x) = n.
Proof. unfold SHA256.be_bytes. by rewrite length_map, length_rev, length_seq. Qed.

Lemma length_round (st : list Z) (kw : Z * Z) : length (SHA256.round st kw) = length st.
Proof.
  unfold SHA256.round.
  destruct st as [|a [|b [|c [|d [|e [|f [|g [|h [|i st]]]]]]]]]; done.
Qed.

Lemma length_rounds (kws : list (Z * Z)) (st : list Z) :
  length (fold_left SHA256.round kws st) = length st.
Proof.
  revert st. induction kws as [|kw kws IH]; intros st; simpl; [done|].
  by rewrite IH, length_round.
Qed.

Lemma length_compress (h block : list Z) : length (SHA256.compress h block) = length h.
Proof.
  unfold SHA256.compress. rewrite length_zip_with, length_rounds. lia.
Qed.

Lemma length_blocks (n : nat) (h bs : list Z) : length (SHA256.blocks n h bs) = length h.
Proof.
  revert h bs. induction n as [|n IH]; intros h bs; simpl; [done|].
  by rewrite IH, length_compress.
Qed.

Lemma length_flat_map_const {A B} (f : A → list B) (k : nat) (l : list A) :
  (∀ x, length (f x) = k) → length (flat_map f l) = (k * length l)%nat.
Proof.
  intros Hf. induction l as [|x l IH]; simpl; [lia|].
  rewrite length_app, Hf, IH. lia.
Qed.

Lemma length_Sum (msg : list Z) : length (SHA256.Sum msg) = 32%nat.
Proof.
  unfold SHA256.Sum. cbv zeta.
  rewrite (length_flat_map_const _ 4) by apply length_be_bytes.
  by rewrite length_blocks.
Qed.

Lemma Sum_range (msg : list Z) : Forall (λ b, 0 <= b < 256) (SHA256.Sum msg).
Proof.
  unfold SHA256.Sum. cbv zeta.
  induction (SHA256.blocks _ _ _) as [|w ws IH]; [constructor|].
  cbn [flat_map]. apply Forall_app. split; [apply be_bytes_range|done].
Qed.





Lemma Encode_items_Nil (m : slice Item) : Encode_items m = Encode_items Nil ↔ m = Nil.
Proof.
  split; [|by intros ->]. destruct m as [|[|it l]]; [done|discriminate..].
Qed.

Lemma Scan_complete (row : Sqlite.Row) :
  complete row → Sqlite.Scan row = inr (item_of_row row).
Proof.
  destruct row as [[] [] [] []]; unfold complete, assignable; simpl; intros (?&?&?&?); done.
Qed.

Lemma Scan_incomplete (row : Sqlite.Row) :
  ¬ complete row →
  ∃ index name, Sqlite.Scan row = inl (Sqlite.NullColumn (Z.of_nat index) name) ∧
    columns row !! index = Some Sqlite.NULL ∧ column_names !! index = Some name ∧
    ∀ j, (j < index)%nat → columns row !! j ≠ Some Sqlite.NULL.
Proof.
  intros Hn.
  assert (Hlt : ∀ (P : nat → Prop) k, (∀ j, (j < S k)%nat → P j) ↔ P k ∧ ∀ j, (j < k)%nat → P j).
  { intros P k. split.
    - intros H. split; [apply H; lia|intros j Hj; apply H; lia].
    - intros [Hk H] j Hj. destruct (decide (j = k)) as [->|]; [done|apply H; lia]. }
  destruct row as [c0 c1 c2 c3]. unfold complete, assignable in Hn. simpl in Hn.
  destruct c0 as [|s0|i0].
  { exists 0%nat, "id". split_and!; [done..|]. intros j Hj. lia. }
  all: destruct c1 as [|s1|i1].
  all: try (exists 1%nat, "name"; split_and!; [done..|];
            rewrite Hlt; split; [done|intros j Hj; lia]).
  all: destruct c2 as [|s2|i2].
  all: try (exists 2%nat, "category"; split_and!; [done..|];
            rewrite !Hlt; split_and!; [done..|intros j Hj; lia]).
  all: destruct c3 as [|s3|i3].
  all: try (exists 3%nat, "image_name"; split_and!; [done..|];
            rewrite !Hlt; split_and!; [done..|intros j Hj; lia]).
  all: exfalso; apply Hn; split_and!; discriminate.
Qed.

Lemma scan_rows_complete (rows : list Sqlite.Row) (acc : slice Item) :
  Forall complete rows →
  Sqlite.scan_rows rows acc
  = inr (match rows with [] => acc | _ :: _ => Elems (elems acc ++ map item_of_row rows) end).
Proof.
  revert acc. induction rows as [|row rows IH]; intros acc Hc; [done|].
  apply Forall_cons in Hc as [H1 Hc]. simpl. rewrite (Scan_complete row H1), (IH _ Hc).
  destruct rows as [|row' rows]; simpl; [done|]. by rewrite <- app_assoc.
Qed.

Lemma scan_rows_stops (good rest : list Sqlite.Row) (bad : Sqlite.Row) (acc : slice Item)
    (e : Sqlite.ScanError) :
  Forall complete good → Sqlite.Scan bad = inl e →
  Sqlite.scan_rows (good ++ bad :: rest) acc = inl e.
Proof.
  revert acc. induction good as [|row good IH]; intros acc Hc He; simpl.
  - by rewrite He.
  - apply Forall_cons in Hc as [H1 Hc]. rewrite (Scan_complete row H1). by apply IH.
Qed.

Lemma complete_dec (row : Sqlite.Row) : complete row ∨ ¬ complete row.
Proof.
  destruct row as [c0 c1 c2 c3]. unfold complete, assignable. simpl.
  destruct c0, c1, c2, c3; try (right; intros (?&?&?&?); done); left; split_and!; discriminate.
Qed.

Lemma first_incomplete (rows : list Sqlite.Row) :
  Forall complete rows ∨
  ∃ good bad rest, rows = good ++ bad :: rest ∧ Forall complete good ∧ ¬ complete bad.
Proof.
  induction rows as [|row rows IH]; [left; constructor|].
  destruct (complete_dec row) as [Hc|Hn].
  - destruct IH as [IH|(good & bad & rest & -> & Hg & Hb)].
    + left. by constructor.
    + right. exists (row :: good), bad, rest. split_and!; [done| |done]. by constructor.
  - right. exists [], row, rows. split_and!; [done|constructor|done].
Qed.


(** ** Properties *)


(** X2: a POST changes no path of the disk other than the catalog
    document and the file of the uploaded image, whatever its outcome. *)
Theorem X2_post_frame (env : Env) (r : Request) (fs : FS) (path : string) :
  path ≠ "items.json" →
  (∀ file, FormFile r "image" = Some file → path ≠ Join "images" (hashedFilename file)) →
  (postItems env r fs).1 !! path = fs !! path.
Proof.
  intros Hc Hi. unfold postItems, Create, Copy, json_Marshal.
  destruct (multipart_error r); [done|].
  destruct (FormFile r "image") as [file|]; [|done].
  specialize (Hi file eq_refl).
  destruct (fault_hash env); [done|].
  destruct (fault_create env); [done|]. cbn beta iota zeta.
  destruct (fault_copy env) as [n|]; cbn beta iota zeta.
  { cbn [fst]. by rewrite insert_insert_eq, lookup_insert_ne. }
  destruct (ReadFile env _ "items.json") as [data err].
  unfold WriteFile. destruct (fault_write env); cbn [fst];
    rewrite ?insert_insert_eq, ?(lookup_insert_ne _ "items.json") by done;
    by rewrite lookup_insert_ne.
Qed.

Lemma X2_post_frame_witness :
  (postItems (calm noon) hat_request shop).1 !! "images/other.png"
  = shop !! "images/other.png".
Proof.
  apply X2_post_frame; [discriminate|].
  intros file Hf. vm_compute in Hf. injection Hf as <-. by vm_compute.
Defined.

(** X3: a POST that is refused (400) leaves the disk as it was. A POST
    that fails (500) leaves the catalog document as it was, and the whole
    disk when hashing or creating the file failed; when the copy stopped
    after n bytes, the image file holds the first n bytes of the upload,
    in place of whatever an earlier upload had stored under that name, and
    stays on the disk. *)
Theorem X3_failed_post_effects (env : Env) (r : Request) (fs : FS) :
  let out := postItems env r fs in
  (StatusCode out.2 = StatusBadRequest → out.1 = fs) ∧
  (StatusCode out.2 = StatusInternalServerError →
   out.1 !! "items.json" = fs !! "items.json" ∧
   ∃ file, FormFile r "image" = Some file ∧
     ((fault_hash env = true ∨ fault_create env = true) → out.1 = fs) ∧
     (fault_hash env = false → fault_create env = false →
      ∃ n, fault_copy env = Some n ∧
        out.1 = <[Join "images" (hashedFilename file) := String.substring 0 n (Content file)]> fs)).
Proof.
  cbv zeta. unfold postItems, Create, Copy, json_Marshal.
  destruct (multipart_error r); [cbn; intuition discriminate|].
  destruct (FormFile r "image") as [file|]; [|cbn; intuition discriminate].
  destruct (fault_hash env).
  { cbn. split; [discriminate|]. intros _. split; [done|]. exists file. intuition discriminate. }
  destruct (fault_create env).
  { cbn. split; [discriminate|]. intros _. split; [done|]. exists file. intuition discriminate. }
  cbn beta iota zeta.
  destruct (fault_copy env) as [n|]; cbn beta iota zeta.
  { cbn [fst snd]. split; [discriminate|]. intros _. split.
    - rewrite insert_insert_eq. apply lookup_insert_ne, image_path_not_catalog.
    - exists file. split; [done|]. split; [intuition discriminate|].
      intros _ _. exists n. by rewrite insert_insert_eq. }
  destruct (ReadFile env _ "items.json") as [data err].
  destruct (WriteFile env _ "items.json" _) as [fs' werr].
  cbn. split; discriminate.
Qed.

(** X4: whenever a POST is answered 201, the bytes of the upload are on
    the disk under [images/] and the image_name of the new item, also when
    the write of the catalog failed. *)
Theorem X4_image_stored_before_catalog (env : Env) (r : Request) (fs : FS) :
  StatusCode (postItems env r fs).2 = StatusCreated →
  ∃ file, FormFile r "image" = Some file ∧
    (postItems env r fs).1 !! Join "images" (ImageName (newItem env r file))
    = Some (Content file).
Proof.
  intros Hs. destruct (postItems_Created _ _ _ Hs) as (file & Hm & Hf & Hh & Hc & Hy).
  exists file. split; [done|].
  rewrite (postItems_smooth env r fs file) by done.
  assert (Hne : "items.json" ≠ Join "images" (hashedFilename file))
    by (intros H; by apply (image_path_not_catalog (hashedFilename file))).
  unfold WriteFile. cbn [ImageName newItem].
  destruct (fault_write env); cbn [fst];
    rewrite ?(lookup_insert_ne _ "items.json") by done; by rewrite lookup_insert_eq.
Qed.

Lemma X4_image_stored_before_catalog_witness :
  ∃ file, FormFile hat_request "image" = Some file ∧
    (postItems (mkEnv noon false false None None (ShortWrite 100)) hat_request shop).1
      !! Join "images" (ImageName (newItem (mkEnv noon false false None None (ShortWrite 100))
                                           hat_request file))
    = Some (Content file).
Proof. apply X4_image_stored_before_catalog. by vm_compute. Defined.

(** X5: the name under which an upload is stored holds no path
    separator, whatever the uploaded file name: it is 64 characters, each a
    lower-case hexadecimal digit, followed by the extension of that file
    name. The file is therefore always created directly in [images/]. *)
Theorem X5_stored_name_shape (file : Upload) :
  ¬ has_char "/" (hashedFilename file) ∧
  String.length (hashedFilename file) = (64 + String.length (Ext (Filename file)))%nat ∧
  (∀ c, has_char c (hashedFilename file) →
        has_char c "0123456789abcdef" ∨ has_char c (Ext (Filename file))).
Proof.
  unfold hashedFilename. split_and!.
  - rewrite has_char_In, list_ascii_app, in_app_iff. intros [H|H].
    + revert H. apply Sprintf_x_no_separator, Sum_range.
    + revert H. unfold Ext. apply Ext_scan_no_separator. simpl. tauto.
  - by rewrite length_append, length_Sprintf_x, length_Sum.
  - intros c. rewrite !has_char_In, list_ascii_app, in_app_iff.
    intros [H|H]; [left|by right].
    pose proof (Sum_range (bytes_of (Content file))) as Hr.
    induction Hr as [|b bs Hb _ IH]; simpl in H; [done|].
    assert (Hd : ∀ d, 0 <= d < 16 →
              In (hex_digit d) (String.list_ascii_of_string "0123456789abcdef")).
    { intros d Hd.
      assert (Hc : d = 0 ∨ d = 1 ∨ d = 2 ∨ d = 3 ∨ d = 4 ∨ d = 5 ∨ d = 6 ∨ d = 7 ∨ d = 8 ∨
              d = 9 ∨ d = 10 ∨ d = 11 ∨ d = 12 ∨ d = 13 ∨ d = 14 ∨ d = 15) by lia.
      repeat (destruct Hc as [->|Hc]; [vm_compute; tauto|]). subst. vm_compute. tauto. }
    destruct H as [<-|[<-|H]]; [| |by apply IH].
    + apply Hd. split; [apply Z.div_pos; lia|apply Z.div_lt_upper_bound; lia].
    + apply Hd. apply Z.mod_pos_bound. lia.
Qed.




(** X8: no sequence of requests served by a read handler (the list, the
    item and the search handlers of either variant) changes the disk, and
    neither does [itemsHandler] as long as no request is a POST. *)
Theorem X8_reads_leave_disk (calls : list (Env * Request)) (fs : FS) :
  (serve_all getItems calls fs).1 = fs ∧
  (serve_all FileBacked.getItemHandler calls fs).1 = fs ∧
  (serve_all FileBacked.searchItemsHandler calls fs).1 = fs ∧
  (serve_all App.getItemHandler calls fs).1 = fs ∧
  (serve_all App.searchItemsHandler calls fs).1 = fs ∧
  (Forall (λ c, Method c.2 ≠ "POST") calls → (serve_all App.itemsHandler calls fs).1 = fs).
Proof.
  assert (Hall : ∀ (h : Handler) (P : Env * Request → Prop),
            (∀ env r fs, P (env, r) → (h env r fs).1 = fs) →
            Forall P calls → (serve_all h calls fs).1 = fs).
  { intros h P Hh Hc. induction Hc as [|[env r] rest H1 _ IH]; simpl; [done|].
    specialize (Hh env r fs H1). destruct (h env r fs) as [fs1 resp]. simpl in Hh. subst fs1.
    by destruct (serve_all h rest fs). }
  assert (Htrue : Forall (λ _, True) calls) by by apply Forall_true.
  assert (Hlist : ∀ env r fs, (getItems env r fs).1 = fs).
  { intros env r fs0. unfold getItems. by destruct (ReadFile env fs0 _) as [data [e|]]. }
  split_and!.
  - apply (Hall _ (λ _, True)); [|done]. intros env r fs0 _. apply Hlist.
  - apply (Hall _ (λ _, True)); [|done]. intros env r fs0 _. unfold FileBacked.getItemHandler.
    destruct (ReadFile env fs0 _) as [data [e|]]; [done|]. cbn beta iota zeta.
    destruct (json_Unmarshal _ _) as [items [e|]]; [done|]. by destruct (range_ID _ _).
  - apply (Hall _ (λ _, True)); [|done]. intros env r fs0 _. unfold FileBacked.searchItemsHandler.
    destruct (String.eqb _ _); [done|].
    destruct (ReadFile env fs0 _) as [data [e|]]; [done|]. cbn beta iota zeta.
    by destruct (json_Unmarshal _ _) as [items [e|]].
  - apply (Hall _ (λ _, True)); [|done]. intros env r fs0 _. unfold App.getItemHandler.
    destruct (ReadFile env fs0 _) as [data [e|]]; [done|]. cbn beta iota zeta.
    destruct (json_Unmarshal _ _) as [items e]. by destruct (range_ID _ _).
  - apply (Hall _ (λ _, True)); [|done]. intros env r fs0 _. unfold App.searchItemsHandler.
    by destruct (String.eqb _ _).
  - apply Hall. intros env r fs0 Hm. simpl in Hm. unfold App.itemsHandler.
    destruct (String.eqb_spec (Method r) "POST") as [E|_]; [done|].
    destruct (String.eqb (Method r) "GET"); [apply Hlist|done].
Qed.

(** X9: on a catalog that loads and with a non-empty keyword, the search
    of src/go/app/main.go always answers 200 with the items field null,
    whatever the catalog holds; its answer is the one of the file-backed
    search exactly when no item matches the keyword. *)
Theorem X9_stub_search_agrees_iff_no_match (env : Env) (r : Request) (fs : FS) (data : string)
    (items : Items) :
  fault_read env = None → fs !! "items.json" = Some data →
  json_Unmarshal data zero_Items = (items, None) →
  Query_Get r "keyword" ≠ EmptyString →
  (App.searchItemsHandler env r fs).2
  = mkResponse StatusOK (Some "application/json") (jq "{'items':null}" +:+ String LF EmptyString) ∧
  ((App.searchItemsHandler env r fs).2 = (FileBacked.searchItemsHandler env r fs).2 ↔
   ∀ it, it ∈ elems (Items_Items items) → ¬ matches (Query_Get r "keyword") it).
Proof.
  intros Hr Hd Hu Hk. unfold App.searchItemsHandler, FileBacked.searchItemsHandler, ReadFile.
  apply String.eqb_neq in Hk. rewrite Hk, Hr, Hd. cbn beta iota zeta.
  rewrite Hu. cbn beta iota zeta. split; [done|].
  set (keyword := Query_Get r "keyword"). set (l := elems (Items_Items items)).
  transitivity (range_match keyword l Nil = Nil).
  - split.
    + intros H. apply (f_equal Body) in H. cbn [Body] in H. by apply Encode_items_Nil.
    + by intros ->.
  - rewrite range_match_Nil. clearbody l. induction l as [|it l IH]; simpl.
    + split; [|done]. intros _ x Hx. by apply elem_of_nil in Hx.
    + destruct (Contains (Name it) keyword || Contains (Category it) keyword) eqn:Em.
      * split; [done|]. intros H. exfalso. apply (H it); [left|by apply matches_spec].
      * rewrite IH. split.
        -- intros H x [->|Hx]%elem_of_cons; [|by apply H].
           rewrite <- matches_spec. by rewrite Em.
        -- intros H x Hx. apply H. by right.
Qed.

Lemma X9_stub_search_agrees_iff_no_match_witness :
  (App.searchItemsHandler (calm noon) (search_request "Sho") shop).2
  = mkResponse StatusOK (Some "application/json") (jq "{'items':null}" +:+ String LF EmptyString) ∧
  ((App.searchItemsHandler (calm noon) (search_request "Sho") shop).2
   = (FileBacked.searchItemsHandler (calm noon) (search_request "Sho") shop).2 ↔
   ∀ it, it ∈ elems (Items_Items shop_items) →
         ¬ matches (Query_Get (search_request "Sho") "keyword") it).
Proof.
  apply (X9_stub_search_agrees_iff_no_match (calm noon) (search_request "Sho") shop shop_doc
           shop_items); by vm_compute.
Defined.









(** X14: the database-backed listing answers 200 exactly when the query
    succeeds and no column of a delivered row is NULL, and 500 otherwise.
    At the first row with a NULL column the answer is the error of Scan,
    which names the leftmost NULL column of that row; no item of the rows
    before it is sent. *)
Theorem X14_database_null_column (query : error + list Sqlite.Row) :
  let resp := Sqlite.itemsHandler query in
  (StatusCode resp = StatusOK ↔ ∃ rows, query = inr rows ∧ Forall complete rows) ∧
  (StatusCode resp ≠ StatusOK → StorageFailure resp) ∧
  (∀ good bad rest, query = inr (good ++ bad :: rest) → Forall complete good → ¬ complete bad →
     ∃ index name,
       resp = http_Error (Sqlite.ScanError_Error (Sqlite.NullColumn (Z.of_nat index) name))
                StatusInternalServerError ∧
       columns bad !! index = Some Sqlite.NULL ∧ column_names !! index = Some name ∧
       ∀ j, (j < index)%nat → columns bad !! j ≠ Some Sqlite.NULL).
Proof.
  cbv zeta. unfold Sqlite.itemsHandler. destruct query as [err|rows].
  { split_and!; [|done|intros ? ? ? [=]]. split; [discriminate|]. by intros (? & [=] & _). }
  assert (Hstop : ∀ good bad rest, rows = good ++ bad :: rest → Forall complete good →
            ¬ complete bad →
            ∃ index name,
              Sqlite.scan_rows rows Nil = inl (Sqlite.NullColumn (Z.of_nat index) name) ∧
              columns bad !! index = Some Sqlite.NULL ∧ column_names !! index = Some name ∧
              ∀ j, (j < index)%nat → columns bad !! j ≠ Some Sqlite.NULL).
  { intros good bad rest -> Hg Hb.
    destruct (Scan_incomplete bad Hb) as (index & name & He & H1 & H2 & H3).
    exists index, name. split_and!; [|done..]. by apply scan_rows_stops. }
  destruct (first_incomplete rows) as [Hc|(good & bad & rest & E & Hg & Hb)].
  - rewrite (scan_rows_complete rows Nil Hc). split_and!.
    + split; [|done]. intros _. by exists rows.
    + done.
    + intros good bad rest [= ->] Hg Hb. exfalso. apply Hb.
      rewrite Forall_forall in Hc. apply Hc. apply elem_of_app. right. by left.
  - destruct (Hstop _ _ _ E Hg Hb) as (index & name & He & _). rewrite He. split_and!.
    + split; [discriminate|]. intros (rows' & [= <-] & Hc). exfalso. apply Hb.
      rewrite Forall_forall in Hc. apply Hc. rewrite E. apply elem_of_app. right. by left.
    + done.
    + intros good' bad' rest' [= E'] Hg' Hb'.
      destruct (Hstop _ _ _ E' Hg' Hb') as (index' & name' & He' & H1 & H2 & H3).
      exists index', name'. rewrite He in He'. injection He' as -> ->. done.
Qed.


